(** * The stories reducer of src/App.tsx

    A shallow embedding of the state machine behind the Hacker Stories page:
    the [Story] record, the [StoriesState] snapshot, the [StoriesAction]
    union, [storiesReducer], and the sort buttons that dispatch to it.
    lodash's [_.sortBy], which the reducer calls, is modelled after lodash's
    own [baseOrderBy].  Around the reducer, [App] is read as a state machine
    over page events: the search term kept in local storage, the url, the
    requests that are out, and what the page shows. *)

From Stdlib Require Import List String Ascii ZArith Bool Lia.
From Stdlib Require Import Permutation Sorted OrderedTypeEx.
Import ListNotations.

Local Open Scope string_scope.
Local Open Scope Z_scope.

(** ** Data model *)

(** [type Story]: four string fields and two numeric ones.  JavaScript
    strings are read as Rocq strings (compared unit by unit), the two counts
    as integers. *)
Record Story := mkStory {
  objectID : string;
  url : string;
  title : string;
  author : string;
  num_comments : Z;
  points : Z
}.

Definition Stories := list Story.

Record StoriesState := mkState {
  data : Stories;
  isLoading : bool;
  isError : bool;
  reverse : bool
}.

(** The five members of the [StoriesAction] union.  [UNKNOWN_ACTION] stands
    for an object whose [type] tag is none of the five: TypeScript's checker
    rejects it, the compiled [switch] sends it to [default]. *)
Inductive StoriesAction :=
| STORIES_FETCH_INIT
| STORIES_FETCH_SUCCESS (payload : Stories)
| STORIES_FETCH_FAILURE
| REMOVE_STORY (payload : Story)
| SORT_STORIES (payload : string)
| UNKNOWN_ACTION (tag : string).

(** What a call of the reducer does: return the next snapshot, or
    [throw new Error()]. *)
Inductive Outcome :=
| Returns (s : StoriesState)
| Throws.

(** ** lodash's sortBy *)

(** The values a property of a [Story] can hold. *)
Inductive Value :=
| VUndefined
| VString (s : string)
| VNumber (n : Z).

(** The lodash package is imported by src/App.tsx and is not part of the
    repository.  The definitions of this module follow lodash's [property],
    [compareAscending], [compareMultiple], [baseSortBy] and [baseOrderBy],
    restricted to what a call [_.sortBy(stories, name)] goes through. *)
Module Lodash.

(** [property path] reads the own property [path] of a story.  A name that
    is not a field of [Story] reads as [undefined]; paths that reach inside a
    field value (a dotted path such as title.length) are not modelled and
    read as [undefined] too. *)
Definition property (path : string) (object : Story) : Value :=
  if (path =? "objectID")%string then VString (objectID object)
  else if (path =? "url")%string then VString (url object)
  else if (path =? "title")%string then VString (title object)
  else if (path =? "author")%string then VString (author object)
  else if (path =? "num_comments")%string then VNumber (num_comments object)
  else if (path =? "points")%string then VNumber (points object)
  else VUndefined.

(** [compareAscending value other]: 1, -1 or 0.  [undefined] sorts after
    every defined value; two strings compare as JavaScript's [<] and [>] do,
    two numbers by magnitude.  A string is never compared with a number by
    the reducer (see [property_kind]); JavaScript would convert the string
    first, here the pair compares as 0. *)
Definition compareAscending (value other : Value) : Z :=
  match value, other with
  | VUndefined, VUndefined => 0
  | VUndefined, _ => 1
  | _, VUndefined => -1
  | VString a, VString b =>
      match String.compare a b with Gt => 1 | Lt => -1 | Eq => 0 end
  | VNumber a, VNumber b =>
      match Z.compare a b with Gt => 1 | Lt => -1 | Eq => 0 end
  | _, _ => 0
  end.

(** The objects [baseOrderBy] sorts: the criterion, the position in the
    collection and the element itself. *)
Record Entry := mkEntry {
  criteria : Value;
  index : nat;
  value : Story
}.

(** [compareMultiple] with one criterion and no explicit orders: the
    criterion decides, ties fall back to [object.index - other.index]. *)
Definition compareMultiple (object other : Entry) : Z :=
  let result := compareAscending (criteria object) (criteria other) in
  if negb (result =? 0) then result
  else Z.of_nat (index object) - Z.of_nat (index other).

(** [array.sort(comparer)].  ECMAScript leaves the algorithm open; the
    comparer used here is never 0 on two distinct entries, so every
    conforming algorithm returns the same array.  Insertion: [x] moves past
    every [y] with [comparer x y > 0]. *)
Fixpoint insert (comparer : Entry -> Entry -> Z) (x : Entry) (l : list Entry)
  : list Entry :=
  match l with
  | [] => [x]
  | y :: l' =>
      if 0 <? comparer x y then y :: insert comparer x l' else x :: l
  end.

Definition sort (comparer : Entry -> Entry -> Z) (array : list Entry)
  : list Entry :=
  fold_right (insert comparer) [] array.

(** [baseSortBy array comparer]: sort, then keep each entry's [value]. *)
Definition baseSortBy (array : list Entry) (comparer : Entry -> Entry -> Z)
  : Stories :=
  map value (sort comparer array).

(** [baseMap] with the running [index] of [baseOrderBy], starting at [i]. *)
Fixpoint baseMap (iteratee : Story -> Value) (i : nat) (collection : Stories)
  : list Entry :=
  match collection with
  | [] => []
  | v :: rest => mkEntry (iteratee v) i v :: baseMap iteratee (S i) rest
  end.

Definition baseOrderBy (collection : Stories) (iteratee : Story -> Value)
  : Stories :=
  baseSortBy (baseMap iteratee 0 collection) compareMultiple.

(** Modelled from the spec: [_.sortBy], the one function of lodash that
    [storiesReducer] calls; section 4.2 of the spec describes it as a stable
    ascending comparison on the named field.  As in lodash, it is
    [baseOrderBy] with the property reader of [path] as its iteratee. *)
Definition sortBy (collection : Stories) (path : string) : Stories :=
  baseOrderBy collection (property path).

End Lodash.

(** ** The reducer *)

Definition storiesReducer (state : StoriesState) (action : StoriesAction)
  : Outcome :=
  match action with
  | STORIES_FETCH_INIT =>
      Returns (mkState (data state) true false (reverse state))
  | STORIES_FETCH_SUCCESS payload =>
      Returns (mkState payload false false (reverse state))
  | STORIES_FETCH_FAILURE =>
      Returns (mkState (data state) false true (reverse state))
  | REMOVE_STORY payload =>
      Returns (mkState
                 (filter (fun story =>
                            negb (objectID payload =? objectID story)%string)
                         (data state))
                 (isLoading state) (isError state) (reverse state))
  | SORT_STORIES payload =>
      if reverse state then
        Returns (mkState (Lodash.sortBy (data state) payload)
                         (isLoading state) (isError state) false)
      else
        Returns (mkState (rev (Lodash.sortBy (data state) payload))
                         (isLoading state) (isError state) true)
  | UNKNOWN_ACTION _ => Throws
  end.

(** The second argument of [React.useReducer] in [App]. *)
Definition initialState : StoriesState := mkState [] false false false.

(** [dispatchStories] called once per action of a list, in order. *)
Fixpoint dispatchAll (state : StoriesState) (actions : list StoriesAction)
  : Outcome :=
  match actions with
  | [] => Returns state
  | a :: rest =>
      match storiesReducer state a with
      | Returns state' => dispatchAll state' rest
      | Throws => Throws
      end
  end.

(** The actions of the [StoriesAction] union. *)
Definition isCommand (a : StoriesAction) : bool :=
  match a with
  | UNKNOWN_ACTION _ => false
  | _ => true
  end.

(** ** The sort buttons *)

Record CustomButtonInfo := mkButton {
  textField : string;
  filterField : string
}.

Definition handleSortStories (item : string) : StoriesAction :=
  SORT_STORIES item.

Definition onClickFilter (filterField : string)
  (onSort : string -> StoriesAction) : StoriesAction :=
  onSort filterField.

(** The [onClick] of a [CustomButton]; [App] passes [handleSortStories] as
    [onSort] to each of its buttons. *)
Definition CustomButton_onClick (b : CustomButtonInfo) : StoriesAction :=
  onClickFilter (filterField b) handleSortStories.

(** The three buttons [App] renders, in order. *)
Definition App_buttons : list CustomButtonInfo :=
  [ mkButton "author" "author";
    mkButton "topic" "topic";
    mkButton "comments" "num_comments" ].

(** Clicking the header that shows [text]. *)
Definition clickHeader (text : string) : option StoriesAction :=
  match find (fun b => (textField b =? text)%string) App_buttons with
  | Some b => Some (CustomButton_onClick b)
  | None => None
  end.

(** ** The rest of App: storage, fetching, events and what is shown *)

Definition API_ENDPOINT : string :=
  "https://hn.algolia.com/api/v1/search?query=".

(** The browser's [localStorage]: string values under string keys.
    [getItem] answers [null], here [None], for a key that was never set;
    [setItem] replaces what the key held. *)
Definition Storage := list (string * string).

Fixpoint getItem (storage : Storage) (key : string) : option string :=
  match storage with
  | [] => None
  | (k, v) :: rest => if (k =? key)%string then Some v else getItem rest key
  end.

Definition setItem (storage : Storage) (key value : string) : Storage :=
  (key, value) :: filter (fun kv => negb (fst kv =? key)%string) storage.

(** [useSemiPersistentState]: the first value of the state is
    [localStorage.getItem(key) || initialState]; JavaScript's [||] passes
    over [null] and over the empty string alike. *)
Definition useSemiPersistentState_initial (key initialState : string)
  (storage : Storage) : string :=
  match getItem storage key with
  | Some stored => if (stored =? "")%string then initialState else stored
  | None => initialState
  end.

(** The effect of [useSemiPersistentState], run after the first render and
    after every render in which [value] changed. *)
Definition useSemiPersistentState_effect (key value : string)
  (storage : Storage) : Storage :=
  setItem storage key value.

Definition handleRemoveStory (item : Story) : StoriesAction :=
  REMOVE_STORY item.

(** How [await axios.get(url)] ends: with the [hits] of the response, or by
    throwing (any failure lands in the one [catch]). *)
Inductive Response :=
| Resolved (hits : Stories)
| Rejected.

(** The dispatch of [handleFetchStories] once the request has ended. *)
Definition handleFetchStories_settle (r : Response) : StoriesAction :=
  match r with
  | Resolved hits => STORIES_FETCH_SUCCESS hits
  | Rejected => STORIES_FETCH_FAILURE
  end.


(** [disabled={!searchTerm}] on the submit button of [SearchForm]. *)
Definition SearchForm_disabled (searchTerm : string) : bool :=
  (searchTerm =? "")%string.

(** What [App] puts under the rule: the error paragraph when [isError],
    then the loading paragraph or the list. *)
Inductive Element :=
| ErrorMessage
| LoadingMessage
| ListOf (list : Stories).

Definition App_body (stories : StoriesState) : list Element :=
  (if isError stories then [ErrorMessage] else [])
  ++ [if isLoading stories then LoadingMessage else ListOf (data stories)].


(** [l] without its element at position [i]. *)
Definition dropNth {A : Type} (i : nat) (l : list A) : list A :=
  firstn i l ++ skipn (S i) l.

(** The component [App] as a state machine: its three pieces of React state,
    the storage it writes to, and the requests that were sent and have not
    ended yet (oldest first). *)
Module App.

Record State := mkApp {
  searchTerm : string;
  url : string;
  stories : StoriesState;
  localStorage : Storage;
  pending : list string
}.

(** [dispatchStories action]; [None] when the reducer throws. *)
Definition dispatchStories (action : StoriesAction) (app : State)
  : option State :=
  match storiesReducer (stories app) action with
  | Returns next =>
      Some (mkApp (searchTerm app) (url app) next (localStorage app)
                  (pending app))
  | Throws => None
  end.

(** The effect on [handleFetchStories], up to the [await]: dispatch
    STORIES_FETCH_INIT and send the request to the current [url]. *)
Definition startFetch (app : State) : option State :=
  dispatchStories STORIES_FETCH_INIT
    (mkApp (searchTerm app) (url app) (stories app) (localStorage app)
           (pending app ++ [url app])).

(** After the [await] of request number [request]: the request is over and
    its outcome is dispatched.  Nothing ties the outcome to the current
    [url]. *)
Definition settleFetch (request : nat) (r : Response) (app : State)
  : option State :=
  match nth_error (pending app) request with
  | Some _ =>
      dispatchStories (handleFetchStories_settle r)
        (mkApp (searchTerm app) (url app) (stories app) (localStorage app)
               (dropNth request (pending app)))
  | None => Some app
  end.

(** The first render and its effects: the term comes from storage or is
    React, the url is built from it, the term is written back and the
    first request leaves. *)
Definition mount (storage : Storage) : option State :=
  let term := useSemiPersistentState_initial "search" "React" storage in
  startFetch
    (mkApp term (API_ENDPOINT ++ term) initialState
           (useSemiPersistentState_effect "search" term storage) []).

(** [handleSearchInput] with [event.target.value]: [setSearchTerm], whose
    effect writes the new term to storage.  Setting the value the state
    already has renders nothing and runs no effect. *)
Definition handleSearchInput (value : string) (app : State) : State :=
  if (value =? searchTerm app)%string then app
  else mkApp value (url app) (stories app)
             (useSemiPersistentState_effect "search" value (localStorage app))
             (pending app).

(** [handleSearchSubmit]: [setUrl]; [handleFetchStories] is rebuilt, and its
    effect runs, only when the url is a different string. *)
Definition handleSearchSubmit (app : State) : option State :=
  let next := API_ENDPOINT ++ searchTerm app in
  if (next =? url app)%string then Some app
  else startFetch
         (mkApp (searchTerm app) next (stories app) (localStorage app)
                (pending app)).

(** What can happen to the page: typing, submitting the form, a click on a
    sort header, a click on the Dismiss button of a row, the end of a
    request. *)
Inductive Event :=
| Typed (value : string)
| Submitted
| HeaderClicked (text : string)
| DismissClicked (row : nat)
| Settled (request : nat) (r : Response).

(** One event.  The form is not submitted while its button is disabled; a
    header that is not on the page, a row that is not shown (none is while
    loading) and a request that is not pending cannot be acted on. *)
Definition step (app : State) (e : Event) : option State :=
  match e with
  | Typed value => Some (handleSearchInput value app)
  | Submitted =>
      if SearchForm_disabled (searchTerm app) then Some app
      else handleSearchSubmit app
  | HeaderClicked text =>
      match clickHeader text with
      | Some action => dispatchStories action app
      | None => Some app
      end
  | DismissClicked row =>
      if isLoading (stories app) then Some app
      else match nth_error (data (stories app)) row with
           | Some item => dispatchStories (handleRemoveStory item) app
           | None => Some app
           end
  | Settled request r => settleFetch request r app
  end.

Fixpoint run (app : State) (events : list Event) : option State :=
  match events with
  | [] => Some app
  | e :: rest =>
      match step app e with
      | Some app' => run app' rest
      | None => None
      end
  end.

(** A visit: the page is opened over [storage], then the events happen. *)
Definition session (storage : Storage) (events : list Event)
  : option State :=
  match mount storage with
  | Some app => run app events
  | None => None
  end.

(** What every state of a visit satisfies (see [session_invariant]). *)
Definition invariant (app : State) : Prop :=
  getItem (localStorage app) "search" = Some (searchTerm app)
  /\ (exists term, term <> "" /\ url app = API_ENDPOINT ++ term)
  /\ Forall (fun u => exists term, term <> "" /\ u = API_ENDPOINT ++ term)
            (pending app)
  /\ (isLoading (stories app) = true -> pending app <> [])
  /\ (isLoading (stories app) && isError (stories app) = false).

End App.

(** ** Vocabulary of the properties *)

(** Insertion by key alone: [x] moves past the stories whose key is strictly
    smaller and stops in front of the first one that is not.  This is the
    reference a stable ascending sort is compared with. *)
Fixpoint insertByKey (key : Story -> Value) (x : Story) (l : Stories)
  : Stories :=
  match l with
  | [] => [x]
  | y :: l' =>
      if 0 <? Lodash.compareAscending (key x) (key y)
      then y :: insertByKey key x l'
      else x :: l
  end.

Definition sortByKey (key : Story -> Value) (l : Stories) : Stories :=
  fold_right (insertByKey key) [] l.

(** [a] does not come after [b] in the order of field [path]. *)
Definition keyLe (path : string) (a b : Story) : Prop :=
  Lodash.compareAscending (Lodash.property path a) (Lodash.property path b)
  <= 0.

(** Every story is followed only by stories that do not come before it. *)
Definition ascending (path : string) (l : Stories) : Prop :=
  StronglySorted (keyLe path) l.

Definition descending (path : string) (l : Stories) : Prop :=
  StronglySorted (fun a b => keyLe path b a) l.

(** [x] ties with [y] on field [path]. *)
Definition tie (path : string) (y x : Story) : bool :=
  Lodash.compareAscending (Lodash.property path x) (Lodash.property path y)
  =? 0.

(** Entries whose index lies above [i] and whose criterion is the key of
    their value: what [Lodash.sort] holds while the entry numbered [i]
    waits to be inserted. *)
Definition above (key : Story -> Value) (i : nat) (e : Lodash.Entry) : Prop :=
  (i < Lodash.index e)%nat
  /\ Lodash.criteria e = key (Lodash.value e).

(** The kind of a value: undefined, string or number. *)
Definition kind (v : Value) : nat :=
  match v with
  | VUndefined => 0%nat
  | VString _ => 1%nat
  | VNumber _ => 2%nat
  end.

(** How many stories of [l] carry the identifier [id]. *)
Definition count_id (id : string) (l : Stories) : nat :=
  List.length (filter (fun story => (objectID story =? id)%string) l).

(** No two stories of [l] share an identifier. *)
Fixpoint uniqueIDs (l : Stories) : bool :=
  match l with
  | [] => true
  | x :: rest =>
      negb (existsb (fun y => (objectID y =? objectID x)%string) rest)
      && uniqueIDs rest
  end.

(** A fetch result is admitted only if its stories have distinct
    identifiers; the other actions carry no collection. *)
Definition payloadUnique (a : StoriesAction) : bool :=
  match a with
  | STORIES_FETCH_SUCCESS payload => uniqueIDs payload
  | _ => true
  end.

(** The two stories of the spec's scenarios. *)
Definition story1 : Story := mkStory "1" "" "A" "X" 2 5.
Definition story2 : Story := mkStory "2" "" "B" "Y" 1 9.

(** A second record under the identifier of [story1]. *)
Definition story1' : Story := mkStory "1" "" "A again" "Z" 0 7.

(** The state of the scenarios after the first fetch, and the same stories
    in the opposite order. *)
Definition scenarioState : StoriesState :=
  mkState [story1; story2] false false false.

Definition swappedState : StoriesState :=
  mkState [story2; story1] false false false.

(** ** Facts about the comparison *)

Section Comparison.

Import Lodash.

Lemma compareAscending_range (a b : Value) :
  compareAscending a b = -1 \/ compareAscending a b = 0
  \/ compareAscending a b = 1.
Proof.
  destruct a, b; simpl; auto.
  - destruct (String.compare s s0); auto.
  - destruct (n ?= n0); auto.
Qed.

Lemma compareAscending_refl (a : Value) : compareAscending a a = 0.
Proof.
  destruct a; simpl; auto.
  - assert (H : String.compare s s = Eq) by (apply String_as_OT.cmp_eq; auto).
    now rewrite H.
  - now rewrite Z.compare_refl.
Qed.

Lemma compareAscending_antisym (a b : Value) :
  compareAscending b a = - compareAscending a b.
Proof.
  destruct a, b; simpl; auto.
  - rewrite (String.compare_antisym s s0).
    destruct (String.compare s0 s); reflexivity.
  - rewrite (Z.compare_antisym n n0).
    destruct (n ?= n0); reflexivity.
Qed.

Lemma string_compare_trans (a b c : string) :
  String.compare a b <> Gt -> String.compare b c <> Gt ->
  String.compare a c <> Gt.
Proof.
  intros Hab Hbc Hac.
  assert (Hca : String.compare c a = Lt).
  { rewrite String.compare_antisym, Hac. reflexivity. }
  apply String_as_OT.cmp_lt in Hca.
  destruct (String.compare a b) eqn:E1; [| |congruence].
  - apply String_as_OT.cmp_eq in E1. subst b.
    congruence.
  - apply String_as_OT.cmp_lt in E1.
    destruct (String.compare b c) eqn:E2; [| |congruence].
    + apply String_as_OT.cmp_eq in E2. subst c.
      apply (String_as_OT.lt_not_eq a a); [|reflexivity].
      eapply String_as_OT.lt_trans; eassumption.
    + apply String_as_OT.cmp_lt in E2.
      apply (String_as_OT.lt_not_eq a a); [|reflexivity].
      eapply String_as_OT.lt_trans; [eassumption|].
      eapply String_as_OT.lt_trans; eassumption.
Qed.

Lemma compareAscending_trans (a b c : Value) :
  kind a = kind b -> kind b = kind c ->
  compareAscending a b <= 0 -> compareAscending b c <= 0 ->
  compareAscending a c <= 0.
Proof.
  destruct a, b, c; simpl; try discriminate; try lia; intros _ _.
  - intros Hab Hbc.
    assert (H : String.compare s s1 <> Gt).
    { apply (string_compare_trans s s0 s1).
      - destruct (String.compare s s0); (congruence || lia).
      - destruct (String.compare s0 s1); (congruence || lia). }
    destruct (String.compare s s1); (congruence || lia).
  - destruct (Z.compare_spec n n0), (Z.compare_spec n0 n1),
      (Z.compare_spec n n1); lia.
Qed.

Lemma property_kind (path : string) (a b : Story) :
  kind (property path a) = kind (property path b).
Proof.
  unfold property.
  repeat match goal with
         | |- context [if ?c then _ else _] => destruct c; [reflexivity|]
         end.
  reflexivity.
Qed.

Lemma keyLe_trans (path : string) (a b c : Story) :
  keyLe path a b -> keyLe path b c -> keyLe path a c.
Proof.
  unfold keyLe. apply compareAscending_trans; apply property_kind.
Qed.

End Comparison.

(** ** Facts about sorting *)

Section Sorting.

Import Lodash.

Variable key : Story -> Value.

Lemma insertByKey_perm (x : Story) (l : Stories) :
  Permutation (x :: l) (insertByKey key x l).
Proof.
  induction l as [|y l IH]; simpl.
  - apply Permutation_refl.
  - destruct (0 <? compareAscending (key x) (key y)).
    + eapply perm_trans; [apply perm_swap|]. now apply perm_skip.
    + apply Permutation_refl.
Qed.

Lemma sortByKey_perm (l : Stories) : Permutation l (sortByKey key l).
Proof.
  induction l as [|x l IH]; simpl.
  - constructor.
  - eapply perm_trans; [|apply insertByKey_perm]. now apply perm_skip.
Qed.

Lemma insert_Forall (P : Entry -> Prop) (x : Entry) (l : list Entry) :
  P x -> Forall P l -> Forall P (insert compareMultiple x l).
Proof.
  intros Hx Hl. induction Hl as [|y l Hy Hl IH]; simpl.
  - auto.
  - destruct (0 <? compareMultiple x y); auto.
Qed.

Lemma sort_baseMap_above (l : Stories) (i j : nat) :
  (i < j)%nat -> Forall (above key i) (sort compareMultiple (baseMap key j l)).
Proof.
  revert j. induction l as [|x l IH]; intros j Hij; simpl.
  - constructor.
  - apply insert_Forall.
    + split; simpl; auto.
    + apply IH. lia.
Qed.

Lemma compareMultiple_above (x : Story) (i : nat) (e : Entry) :
  above key i e ->
  (0 <? compareMultiple (mkEntry (key x) i x) e)
  = (0 <? compareAscending (key x) (key (value e))).
Proof.
  intros [Hi Hc]. unfold compareMultiple. simpl. rewrite Hc.
  destruct (compareAscending_range (key x) (key (value e))) as [H|[H|H]];
    rewrite H; simpl; try reflexivity.
  apply Z.ltb_ge. lia.
Qed.

Lemma insert_above (x : Story) (i : nat) (l : list Entry) :
  Forall (above key i) l ->
  map value (insert compareMultiple (mkEntry (key x) i x) l)
  = insertByKey key x (map value l).
Proof.
  intros Hl. induction Hl as [|e l He Hl IH]; simpl.
  - reflexivity.
  - rewrite (compareMultiple_above x i e He).
    destruct (0 <? compareAscending (key x) (key (value e))); simpl.
    + now rewrite IH.
    + reflexivity.
Qed.

Lemma baseSortBy_baseMap (l : Stories) (i : nat) :
  baseSortBy (baseMap key i l) compareMultiple = sortByKey key l.
Proof.
  unfold baseSortBy. revert i. induction l as [|x l IH]; intros i; simpl.
  - reflexivity.
  - rewrite insert_above.
    + now rewrite IH.
    + apply sort_baseMap_above. lia.
Qed.

End Sorting.

(** lodash's decorate, sort and undecorate is insertion by key: the index
    only ever breaks a tie in favour of the story that came first. *)
Lemma sortBy_sortByKey (l : Stories) (path : string) :
  Lodash.sortBy l path = sortByKey (Lodash.property path) l.
Proof.
  apply baseSortBy_baseMap.
Qed.

Lemma sortBy_perm (l : Stories) (path : string) :
  Permutation l (Lodash.sortBy l path).
Proof.
  rewrite sortBy_sortByKey. apply sortByKey_perm.
Qed.

Lemma sortBy_length (l : Stories) (path : string) :
  List.length (Lodash.sortBy l path) = List.length l.
Proof.
  symmetry. apply Permutation_length, sortBy_perm.
Qed.

Section Ordered.

Import Lodash.

Variable path : string.

Local Abbreviation key := (property path).

Lemma insertByKey_ascending (x : Story) (l : Stories) :
  ascending path l -> ascending path (insertByKey key x l).
Proof.
  unfold ascending. intros Hl.
  induction Hl as [|y l Hl IH Hy]; simpl.
  - constructor; constructor.
  - destruct (0 <? compareAscending (key x) (key y)) eqn:E.
    + constructor; [exact IH|].
      eapply Permutation_Forall; [apply insertByKey_perm|].
      constructor; [|exact Hy].
      unfold keyLe. fold key.
      rewrite (compareAscending_antisym (key x) (key y)).
      apply Z.ltb_lt in E. lia.
    + apply Z.ltb_ge in E.
      constructor; [constructor; assumption|].
      constructor; [exact E|].
      eapply Forall_impl; [|exact Hy].
      intros z Hz. eapply keyLe_trans; [exact E|exact Hz].
Qed.

Lemma sortByKey_ascending (l : Stories) : ascending path (sortByKey key l).
Proof.
  induction l as [|x l IH]; simpl.
  - constructor.
  - now apply insertByKey_ascending.
Qed.

(** Stability, one tie class at a time: the stories that tie with [y] keep
    the order they came in. *)
Lemma insertByKey_tie (y x : Story) (l : Stories) :
  filter (tie path y) (insertByKey key x l)
  = filter (tie path y) (x :: l).
Proof.
  induction l as [|z l IH].
  - reflexivity.
  - cbn [insertByKey].
    destruct (0 <? compareAscending (key x) (key z)) eqn:E;
      [|reflexivity].
    cbn [filter] in *. rewrite IH.
    destruct (tie path y x) eqn:Tx; [|reflexivity].
    destruct (tie path y z) eqn:Tz; [|reflexivity].
    exfalso. unfold tie in Tx, Tz. fold key in Tx, Tz.
    apply Z.eqb_eq in Tx, Tz. apply Z.ltb_lt in E.
    assert (H1 : compareAscending (key x) (key z) <= 0).
    { apply (compareAscending_trans _ (key y));
        try apply property_kind; try lia.
      rewrite compareAscending_antisym. lia. }
    lia.
Qed.

Lemma sortByKey_tie (y : Story) (l : Stories) :
  filter (tie path y) (sortByKey key l) = filter (tie path y) l.
Proof.
  induction l as [|x l IH]; simpl.
  - reflexivity.
  - rewrite insertByKey_tie. simpl. now rewrite IH.
Qed.

End Ordered.

Lemma sortBy_ascending (l : Stories) (path : string) :
  ascending path (Lodash.sortBy l path).
Proof.
  rewrite sortBy_sortByKey. apply sortByKey_ascending.
Qed.

Lemma sortBy_stable (l : Stories) (path : string) (y : Story) :
  filter (tie path y) (Lodash.sortBy l path) = filter (tie path y) l.
Proof.
  rewrite sortBy_sortByKey. apply sortByKey_tie.
Qed.

Lemma StronglySorted_snoc {A : Type} (R : A -> A -> Prop) (l : list A)
  (x : A) :
  StronglySorted R l -> Forall (fun y => R y x) l ->
  StronglySorted R (l ++ [x]).
Proof.
  intros Hl Hx. induction Hl as [|y l Hl IH Hy]; simpl.
  - constructor; constructor.
  - inversion Hx as [|? ? Hyx Hlx]; subst.
    constructor; [now apply IH|].
    apply Forall_app. split; [exact Hy|]. constructor; [exact Hyx|constructor].
Qed.

Lemma rev_ascending (path : string) (l : Stories) :
  ascending path l -> descending path (rev l).
Proof.
  unfold ascending, descending. intros H.
  induction H as [|x l Hl IH Hx]; simpl.
  - constructor.
  - apply StronglySorted_snoc; [exact IH|].
    apply Forall_rev. exact Hx.
Qed.

(** ** Facts about lists of stories *)

Lemma filter_complement_length (f : Story -> bool) (l : Stories) :
  (List.length (filter (fun x => negb (f x)) l) + List.length (filter f l)
   = List.length l)%nat.
Proof.
  induction l as [|x l IH]; simpl.
  - reflexivity.
  - destruct (f x); simpl; lia.
Qed.

Lemma filter_none_length (f : Story -> bool) (l : Stories) :
  List.length (filter f l) = 0%nat -> filter (fun x => negb (f x)) l = l.
Proof.
  induction l as [|x l IH]; simpl.
  - reflexivity.
  - destruct (f x); simpl; [discriminate|].
    intros H. now rewrite IH.
Qed.

Lemma remove_filter (a : Story) (l : Stories) :
  filter (fun story => negb (objectID a =? objectID story)%string) l
  = filter (fun story => negb (objectID story =? objectID a)%string) l.
Proof.
  apply filter_ext. intros x. now rewrite String.eqb_sym.
Qed.

Lemma NoDup_map_filter (f : Story -> bool) (l : Stories) :
  NoDup (map objectID l) -> NoDup (map objectID (filter f l)).
Proof.
  induction l as [|x l IH]; simpl; intros H.
  - constructor.
  - inversion H as [|? ? Hx Hl]; subst.
    destruct (f x); simpl; [|now apply IH].
    constructor; [|now apply IH].
    intros Hin. apply Hx.
    apply in_map_iff in Hin. destruct Hin as [y [Hy Hin]].
    apply filter_In in Hin. apply in_map_iff. exists y. tauto.
Qed.

Lemma uniqueIDs_NoDup (l : Stories) :
  uniqueIDs l = true -> NoDup (map objectID l).
Proof.
  induction l as [|x l IH]; simpl; intros H.
  - constructor.
  - apply andb_prop in H. destruct H as [Hx Hl].
    constructor; [|now apply IH].
    intros Hin. apply in_map_iff in Hin. destruct Hin as [y [Hy Hin]].
    apply negb_true_iff in Hx.
    assert (E : existsb (fun y => (objectID y =? objectID x)%string) l = true).
    { apply existsb_exists. exists y. split; [exact Hin|].
      now apply String.eqb_eq. }
    congruence.
Qed.

Lemma NoDup_uniqueIDs (l : Stories) :
  NoDup (map objectID l) -> uniqueIDs l = true.
Proof.
  induction l as [|x l IH]; simpl; intros H.
  - reflexivity.
  - inversion H as [|? ? Hx Hl]; subst.
    rewrite (IH Hl), andb_true_r. apply negb_true_iff.
    destruct (existsb (fun y => (objectID y =? objectID x)%string) l) eqn:E;
      [|reflexivity].
    exfalso. apply Hx. apply existsb_exists in E.
    destruct E as [y [Hin Hy]]. apply String.eqb_eq in Hy.
    apply in_map_iff. now exists y.
Qed.

Lemma sortBy_NoDup (l : Stories) (path : string) :
  NoDup (map objectID l) -> NoDup (map objectID (Lodash.sortBy l path)).
Proof.
  apply Permutation_NoDup, Permutation_map, sortBy_perm.
Qed.

(** A field that no story has never moves a story. *)
Lemma sortByKey_undefined (key : Story -> Value) (l : Stories) :
  (forall x, key x = VUndefined) -> sortByKey key l = l.
Proof.
  intros Hk. induction l as [|x l IH]; simpl.
  - reflexivity.
  - rewrite IH. destruct l as [|y l]; simpl; [reflexivity|].
    now rewrite (Hk x), (Hk y).
Qed.

(** The reducer preserves distinct identifiers as long as fetch results
    have them. *)
Lemma storiesReducer_unique (s : StoriesState) (a : StoriesAction) :
  isCommand a = true -> payloadUnique a = true ->
  NoDup (map objectID (data s)) ->
  exists s', storiesReducer s a = Returns s'
             /\ NoDup (map objectID (data s')).
Proof.
  intros Hc Hp Hs. destruct a; simpl in *; try discriminate.
  - eexists; split; [reflexivity|exact Hs].
  - eexists; split; [reflexivity|]. now apply uniqueIDs_NoDup.
  - eexists; split; [reflexivity|exact Hs].
  - eexists; split; [reflexivity|]. now apply NoDup_map_filter.
  - destruct (reverse s); eexists; (split; [reflexivity|]); simpl.
    + now apply sortBy_NoDup.
    + rewrite map_rev.
      eapply Permutation_NoDup; [apply Permutation_rev|].
      now apply sortBy_NoDup.
Qed.

Lemma dispatchAll_unique (actions : list StoriesAction) :
  forall s : StoriesState,
  forallb isCommand actions = true ->
  forallb payloadUnique actions = true ->
  NoDup (map objectID (data s)) ->
  exists s', dispatchAll s actions = Returns s'
             /\ NoDup (map objectID (data s')).
Proof.
  induction actions as [|a rest IH]; intros s Hc Hp Hs; simpl in *.
  - exists s. auto.
  - apply andb_prop in Hc. destruct Hc as [Hc Hcs].
    apply andb_prop in Hp. destruct Hp as [Hp Hps].
    destruct (storiesReducer_unique s a Hc Hp Hs) as [s1 [E1 H1]].
    rewrite E1. now apply IH.
Qed.

(** ** The fetch lifecycle *)

(** C4: from every state, STORIES_FETCH_INIT returns a state with
    isLoading = true and isError = false whose data is the data of the
    prior state. *)
Theorem fetch_init_loading (s : StoriesState) :
  exists s', storiesReducer s STORIES_FETCH_INIT = Returns s'
             /\ isLoading s' = true /\ isError s' = false
             /\ data s' = data s.
Proof.
  eexists. split; [reflexivity|]. simpl. auto.
Qed.

(** C5: from every state, STORIES_FETCH_FAILURE returns a state with
    isLoading = false and isError = true whose data is the data of the prior
    state; when the failure follows the STORIES_FETCH_INIT of its fetch, the
    data is still the one from before the fetch began. *)
Theorem fetch_failure_keeps_data (s : StoriesState) :
  (exists s', storiesReducer s STORIES_FETCH_FAILURE = Returns s'
              /\ isLoading s' = false /\ isError s' = true
              /\ data s' = data s)
  /\ (exists s', dispatchAll s [STORIES_FETCH_INIT; STORIES_FETCH_FAILURE]
                 = Returns s'
                 /\ isLoading s' = false /\ isError s' = true
                 /\ data s' = data s).
Proof.
  split; eexists; (split; [reflexivity|]); simpl; auto.
Qed.

(** C6: from every state and for every payload, STORIES_FETCH_SUCCESS
    returns a state whose data is exactly the payload, whatever the prior
    data was, with isLoading = false and isError = false. *)
Theorem fetch_success_replaces_data (s : StoriesState) (payload : Stories) :
  exists s', storiesReducer s (STORIES_FETCH_SUCCESS payload) = Returns s'
             /\ data s' = payload
             /\ isLoading s' = false /\ isError s' = false.
Proof.
  eexists. split; [reflexivity|]. simpl. auto.
Qed.

(** The scenarios of the spec: the first fetch, and a failed fetch over a
    state that holds story 2. *)
Example scenario_fetch :
  dispatchAll initialState
    [STORIES_FETCH_INIT; STORIES_FETCH_SUCCESS [story1; story2]]
  = Returns scenarioState.
Proof. reflexivity. Qed.

Example scenario_failure :
  storiesReducer (mkState [story2] true false false) STORIES_FETCH_FAILURE
  = Returns (mkState [story2] false true false).
Proof. reflexivity. Qed.

(** ** Dismissing a story *)

(** [count_id] counts what the claims call presence: none counted means no
    story of the list has the identifier. *)
Lemma count_id_zero (id : string) (l : Stories) :
  count_id id l = 0%nat <-> (forall x, In x l -> objectID x <> id).
Proof.
  unfold count_id. induction l as [|y l IH]; simpl.
  - split; [intros _ x []|reflexivity].
  - destruct (objectID y =? id)%string eqn:E; simpl.
    + split; [discriminate|]. intros H. exfalso.
      apply (H y); [now left|]. now apply String.eqb_eq.
    + rewrite IH. apply String.eqb_neq in E.
      split; intros H x; [intros [<-|Hx]; auto|auto].
Qed.

(** Whatever the state, REMOVE_STORY drops as many stories as carry the
    identifier of its payload. *)
Lemma remove_story_length (s : StoriesState) (a : Story) :
  exists s', storiesReducer s (REMOVE_STORY a) = Returns s'
             /\ (List.length (data s') + count_id (objectID a) (data s)
                 = List.length (data s))%nat.
Proof.
  eexists. split; [reflexivity|]. simpl.
  rewrite remove_filter. unfold count_id.
  apply (filter_complement_length
           (fun story => (objectID story =? objectID a)%string)).
Qed.

(** C7: when exactly one story of the state carries the identifier of a
    (stories are told apart by objectID, as the reducer does),
    REMOVE_STORY a returns a state with one story less, none of which has
    a's identifier, and with isLoading, isError and reverse as before. *)
Theorem remove_story_present_once (s : StoriesState) (a : Story) :
  count_id (objectID a) (data s) = 1%nat ->
  exists s', storiesReducer s (REMOVE_STORY a) = Returns s'
             /\ (List.length (data s') + 1 = List.length (data s))%nat
             /\ (forall x, In x (data s') -> objectID x <> objectID a)
             /\ count_id (objectID a) (data s') = 0%nat
             /\ isLoading s' = isLoading s
             /\ isError s' = isError s
             /\ reverse s' = reverse s.
Proof.
  intros H1.
  destruct (remove_story_length s a) as [s' [E L]].
  exists s'. split; [exact E|]. rewrite H1 in L. split; [exact L|].
  simpl in E. injection E as <-. simpl.
  assert (Hgone : forall x,
             In x (filter (fun story =>
                             negb (objectID a =? objectID story)%string)
                          (data s)) ->
             objectID x <> objectID a).
  { intros x Hx. apply filter_In in Hx. destruct Hx as [_ Hx].
    apply negb_true_iff, String.eqb_neq in Hx. congruence. }
  split; [exact Hgone|]. split; [|auto].
  now apply count_id_zero.
Qed.

(** Two records under one identifier go together: dismissing either one
    removes both. *)
Example remove_story_shared_identifier :
  storiesReducer (mkState [story1; story1'; story2] false false false)
                 (REMOVE_STORY story1)
  = Returns (mkState [story2] false false false).
Proof. reflexivity. Qed.

(** C8: when no story of the state carries the identifier of a,
    REMOVE_STORY a returns (it does not throw) a state equal to the prior
    one. *)
Theorem remove_story_absent_noop (s : StoriesState) (a : Story) :
  count_id (objectID a) (data s) = 0%nat ->
  storiesReducer s (REMOVE_STORY a) = Returns s.
Proof.
  intros H0. simpl. rewrite remove_filter.
  rewrite (filter_none_length
             (fun story => (objectID story =? objectID a)%string)
             (data s) H0).
  now destruct s.
Qed.

(** Dismissing story 1 from the two stories of the scenario leaves
    story 2. *)
Lemma remove_story_present_once_witness :
  count_id (objectID story1) (data scenarioState) = 1%nat
  /\ exists s', storiesReducer scenarioState (REMOVE_STORY story1)
                = Returns s'
                /\ (List.length (data s') + 1
                    = List.length (data scenarioState))%nat
                /\ (forall x, In x (data s') -> objectID x <> objectID story1)
                /\ count_id (objectID story1) (data s') = 0%nat
                /\ isLoading s' = isLoading scenarioState
                /\ isError s' = isError scenarioState
                /\ reverse s' = reverse scenarioState.
Proof.
  split; [reflexivity|].
  apply (remove_story_present_once scenarioState story1). reflexivity.
Defined.

(** Dismissing story 1 once more, from the state that no longer has it. *)
Lemma remove_story_absent_noop_witness :
  count_id (objectID story1) [story2] = 0%nat
  /\ storiesReducer (mkState [story2] false false false) (REMOVE_STORY story1)
     = Returns (mkState [story2] false false false).
Proof.
  split; [reflexivity|].
  apply (remove_story_absent_noop (mkState [story2] false false false) story1).
  reflexivity.
Defined.

(** ** Sorting *)

(** C10: from every state and for every field name, SORT_STORIES returns a
    state whose data is a permutation of the prior data, so that no story is
    added, removed or changed, and whose isLoading and isError are those of
    the prior state. *)
Theorem sort_stories_permutation (s : StoriesState) (path : string) :
  exists s', storiesReducer s (SORT_STORIES path) = Returns s'
             /\ Permutation (data s) (data s')
             /\ isLoading s' = isLoading s
             /\ isError s' = isError s.
Proof.
  simpl. destruct (reverse s); eexists; (split; [reflexivity|]); simpl.
  - split; [apply sortBy_perm|auto].
  - split; [|auto].
    eapply perm_trans; [apply sortBy_perm|apply Permutation_rev].
Qed.

(** C1, as the spec words it, fails on the scenario of the spec itself: with
    the flag at false, sorting stories 1 and 2 by points puts story 2 (9
    points) before story 1 (5 points), which is not ascending; and with the
    flag at true the same command returns them ascending, not descending. *)
Lemma sort_unreversed_not_ascending :
  reverse scenarioState = false
  /\ storiesReducer scenarioState (SORT_STORIES "points")
     = Returns (mkState [story2; story1] false false true)
  /\ ~ ascending "points" [story2; story1]
  /\ storiesReducer (mkState [story2; story1] false false true)
                    (SORT_STORIES "points")
     = Returns (mkState [story1; story2] false false false)
  /\ ~ descending "points" [story1; story2].
Proof.
  split; [reflexivity|]. split; [reflexivity|].
  split; [|split; [reflexivity|]].
  - intros H. inversion H as [|? ? _ Hx]; subst.
    inversion Hx as [|? ? Hle _]; subst.
    unfold keyLe in Hle. vm_compute in Hle. now apply Hle.
  - intros H. inversion H as [|? ? _ Hx]; subst.
    inversion Hx as [|? ? Hle _]; subst.
    unfold keyLe in Hle. vm_compute in Hle. now apply Hle.
Qed.

(** C1, amended: with the flag at false, SORT_STORIES sorts the stories
    ascending by the field, reverses that order (descending) and sets the
    flag to true; with the flag at true it sorts them ascending by the field
    and sets the flag to false.  The ascending sort is lodash's: a stable
    rearrangement of the same stories. *)
Theorem sort_policy (d : Stories) (loading error : bool) (path : string) :
  storiesReducer (mkState d loading error false) (SORT_STORIES path)
  = Returns (mkState (rev (Lodash.sortBy d path)) loading error true)
  /\ storiesReducer (mkState d loading error true) (SORT_STORIES path)
     = Returns (mkState (Lodash.sortBy d path) loading error false)
  /\ ascending path (Lodash.sortBy d path)
  /\ descending path (rev (Lodash.sortBy d path))
  /\ Permutation d (Lodash.sortBy d path)
  /\ (forall y, filter (tie path y) (Lodash.sortBy d path)
                = filter (tie path y) d).
Proof.
  split; [reflexivity|]. split; [reflexivity|].
  split; [apply sortBy_ascending|].
  split; [apply rev_ascending, sortBy_ascending|].
  split; [apply sortBy_perm|].
  intros y. apply sortBy_stable.
Qed.

(** C2, as the spec words it, fails: stories 2 and 1 in that order are sorted
    twice by points and come out as 1 then 2, not in the order they had. *)
Lemma sort_twice_not_original :
  dispatchAll swappedState [SORT_STORIES "points"; SORT_STORIES "points"]
  = Returns (mkState [story1; story2] false false false)
  /\ [story1; story2] <> data swappedState.
Proof.
  split; [reflexivity|]. discriminate.
Qed.

(** C2, amended: two SORT_STORIES in a row on the same field return the flag
    (and isLoading, isError) to the value before the pair and leave the same
    stories, ordered by the field: ascending when the flag was false,
    descending when it was true. *)
Theorem sort_twice (s : StoriesState) (path : string) :
  exists s', dispatchAll s [SORT_STORIES path; SORT_STORIES path] = Returns s'
             /\ reverse s' = reverse s
             /\ isLoading s' = isLoading s
             /\ isError s' = isError s
             /\ Permutation (data s) (data s')
             /\ (if reverse s then descending path (data s')
                 else ascending path (data s')).
Proof.
  destruct s as [d l e r]. destruct r; simpl;
    eexists; (split; [reflexivity|]); simpl;
    repeat (split; [reflexivity|]); split.
  - eapply perm_trans; [apply sortBy_perm|].
    eapply perm_trans; [apply sortBy_perm|apply Permutation_rev].
  - apply rev_ascending, sortBy_ascending.
  - eapply perm_trans; [apply sortBy_perm|].
    eapply perm_trans; [apply Permutation_rev|apply sortBy_perm].
  - apply sortBy_ascending.
Qed.

(** ** The sort buttons *)

(** C3: the header that shows comments dispatches a sort on num_comments,
    but the header that shows topic dispatches a sort on topic, not on
    title.  No story has a field of that name, so the sort it asks for keeps
    every story where it was, whatever the titles are; only the reversal of
    the toggle is left. *)
Theorem topic_header_sorts_on_topic :
  clickHeader "comments" = Some (SORT_STORIES "num_comments")
  /\ clickHeader "author" = Some (SORT_STORIES "author")
  /\ clickHeader "topic" = Some (SORT_STORIES "topic")
  /\ clickHeader "topic" <> Some (SORT_STORIES "title")
  /\ (forall story, Lodash.property "topic" story = VUndefined)
  /\ (forall d, Lodash.sortBy d "topic" = d)
  /\ storiesReducer (mkState [story2; story1] false false true)
                    (SORT_STORIES "topic")
     = Returns (mkState [story2; story1] false false false)
  /\ storiesReducer (mkState [story2; story1] false false true)
                    (SORT_STORIES "title")
     = Returns (mkState [story1; story2] false false false).
Proof.
  repeat (split; [reflexivity|]).
  split; [discriminate|].
  split; [reflexivity|].
  split; [|split; reflexivity].
  intros d. rewrite sortBy_sortByKey. now apply sortByKey_undefined.
Qed.

(** ** Identifiers *)

(** C9, as the spec words it, fails: a fetch whose result lists two records
    under identifier 1 leaves both of them in the state. *)
Lemma duplicate_ids_reachable :
  forallb isCommand
    [STORIES_FETCH_INIT; STORIES_FETCH_SUCCESS [story1; story1']] = true
  /\ dispatchAll initialState
       [STORIES_FETCH_INIT; STORIES_FETCH_SUCCESS [story1; story1']]
     = Returns (mkState [story1; story1'] false false false)
  /\ story1 <> story1'
  /\ ~ NoDup (map objectID [story1; story1']).
Proof.
  split; [reflexivity|]. split; [reflexivity|]. split; [discriminate|].
  intros H. inversion H as [|? ? Hin _]; subst.
  apply Hin. now left.
Qed.

(** C9, amended: every sequence of STORIES_FETCH_INIT, STORIES_FETCH_SUCCESS,
    STORIES_FETCH_FAILURE, REMOVE_STORY and SORT_STORIES actions whose fetch
    results each hold at most one story per identifier runs from the initial
    state without throwing, and the state it reaches holds at most one story
    per identifier. *)
Theorem reachable_unique_ids (actions : list StoriesAction) :
  forallb isCommand actions = true ->
  forallb payloadUnique actions = true ->
  exists s, dispatchAll initialState actions = Returns s
            /\ NoDup (map objectID (data s)).
Proof.
  intros Hc Hp. apply dispatchAll_unique; [exact Hc|exact Hp|].
  simpl. constructor.
Qed.

(** The scenario of the spec: fetch the two stories, sort them by points,
    dismiss story 1. *)
Lemma reachable_unique_ids_witness :
  forallb isCommand
    [STORIES_FETCH_INIT; STORIES_FETCH_SUCCESS [story1; story2];
     SORT_STORIES "points"; REMOVE_STORY story1] = true
  /\ forallb payloadUnique
       [STORIES_FETCH_INIT; STORIES_FETCH_SUCCESS [story1; story2];
        SORT_STORIES "points"; REMOVE_STORY story1] = true
  /\ exists s,
       dispatchAll initialState
         [STORIES_FETCH_INIT; STORIES_FETCH_SUCCESS [story1; story2];
          SORT_STORIES "points"; REMOVE_STORY story1] = Returns s
       /\ NoDup (map objectID (data s)).
Proof.
  split; [reflexivity|]. split; [reflexivity|].
  apply (reachable_unique_ids
           [STORIES_FETCH_INIT; STORIES_FETCH_SUCCESS [story1; story2];
            SORT_STORIES "points"; REMOVE_STORY story1]); reflexivity.
Defined.


(** ** More about sorting *)

Lemma tie_refl (path : string) (x : Story) : tie path x x = true.
Proof.
  unfold tie. rewrite compareAscending_refl. reflexivity.
Qed.

Lemma keyLe_tie (path : string) (x z : Story) :
  keyLe path x z -> keyLe path z x -> tie path x z = true.
Proof.
  unfold keyLe, tie. intros Hxz Hzx.
  rewrite compareAscending_antisym in Hxz.
  apply Z.eqb_eq. lia.
Qed.

Lemma filter_comm {A : Type} (f g : A -> bool) (l : list A) :
  filter f (filter g l) = filter g (filter f l).
Proof.
  induction l as [|x l IH]; simpl.
  - reflexivity.
  - destruct (g x) eqn:G, (f x) eqn:F; simpl;
      rewrite ?G, ?F, IH; reflexivity.
Qed.

Lemma filter_ascending (path : string) (f : Story -> bool) (l : Stories) :
  ascending path l -> ascending path (filter f l).
Proof.
  unfold ascending. intros H.
  induction H as [|x l Hl IH Hx]; simpl.
  - constructor.
  - destruct (f x); [|exact IH].
    constructor; [exact IH|].
    apply Forall_forall. intros y Hy. apply filter_In in Hy.
    rewrite Forall_forall in Hx. now apply Hx.
Qed.

(** The head of an ascending list does not come after any story of it. *)
Lemma ascending_head (path : string) (x : Story) (l : Stories) (y : Story) :
  ascending path (x :: l) -> In y (x :: l) -> keyLe path x y.
Proof.
  intros H Hy. apply StronglySorted_inv in H. destruct H as [_ H].
  destruct Hy as [<-|Hy].
  - unfold keyLe. rewrite compareAscending_refl. lia.
  - rewrite Forall_forall in H. now apply H.
Qed.

(** An ascending order is fixed by the order inside each class of ties:
    two ascending lists that agree on every class are equal. *)
Lemma ascending_unique (path : string) (l1 : Stories) :
  forall l2 : Stories,
  ascending path l1 -> ascending path l2 ->
  (forall y, filter (tie path y) l1 = filter (tie path y) l2) ->
  l1 = l2.
Proof.
  induction l1 as [|x l1 IH]; intros l2 H1 H2 Hf.
  - destruct l2 as [|z l2]; [reflexivity|].
    specialize (Hf z). simpl in Hf. rewrite tie_refl in Hf. discriminate.
  - destruct l2 as [|z l2].
    { specialize (Hf x). simpl in Hf. rewrite tie_refl in Hf.
      discriminate. }
    assert (Hx : In x (z :: l2)).
    { assert (Hin : In x (filter (tie path x) (z :: l2))).
      { rewrite <- Hf. simpl. rewrite tie_refl. now left. }
      apply filter_In in Hin. tauto. }
    assert (Hz : In z (x :: l1)).
    { assert (Hin : In z (filter (tie path z) (x :: l1))).
      { rewrite Hf. simpl. rewrite tie_refl. now left. }
      apply filter_In in Hin. tauto. }
    assert (T : tie path x z = true).
    { apply keyLe_tie.
      - now apply (ascending_head path x l1 z).
      - now apply (ascending_head path z l2 x). }
    assert (E : z = x).
    { specialize (Hf x). simpl in Hf. rewrite tie_refl, T in Hf.
      congruence. }
    subst z. f_equal.
    apply IH.
    + apply StronglySorted_inv in H1. tauto.
    + apply StronglySorted_inv in H2. tauto.
    + intros y. specialize (Hf y). simpl in Hf.
      destruct (tie path y x); congruence.
Qed.

Lemma sortBy_fixes_ascending (l : Stories) (path : string) :
  ascending path l -> Lodash.sortBy l path = l.
Proof.
  intros H. apply (ascending_unique path).
  - apply sortBy_ascending.
  - exact H.
  - intros y. apply sortBy_stable.
Qed.

Lemma sortBy_idempotent (l : Stories) (path : string) :
  Lodash.sortBy (Lodash.sortBy l path) path = Lodash.sortBy l path.
Proof.
  apply sortBy_fixes_ascending, sortBy_ascending.
Qed.

Lemma sortBy_filter (f : Story -> bool) (l : Stories) (path : string) :
  Lodash.sortBy (filter f l) path = filter f (Lodash.sortBy l path).
Proof.
  apply (ascending_unique path).
  - apply sortBy_ascending.
  - apply filter_ascending, sortBy_ascending.
  - intros y. rewrite sortBy_stable.
    rewrite (filter_comm (tie path y) f (Lodash.sortBy l path)).
    rewrite sortBy_stable. apply filter_comm.
Qed.

(** Sorting, reversing, sorting and reversing again puts every class of
    ties back in the order it had: a further sort gives the plain sort. *)
Lemma sortBy_rev_rev (l : Stories) (path : string) :
  Lodash.sortBy (rev (Lodash.sortBy (rev l) path)) path
  = Lodash.sortBy l path.
Proof.
  apply (ascending_unique path); try apply sortBy_ascending.
  intros y.
  rewrite !sortBy_stable, filter_rev, sortBy_stable, filter_rev.
  apply rev_involutive.
Qed.


(** ** Sorting, again and again *)

(** From any state, five clicks on the same sort header show what the first
    click showed, flag included: the toggle runs through at most four
    lists. *)
Theorem sort_five_times (s : StoriesState) (path : string) :
  dispatchAll s (repeat (SORT_STORIES path) 5)
  = dispatchAll s [SORT_STORIES path].
Proof.
  destruct s as [d l e r]. destruct r; simpl;
    rewrite !sortBy_idempotent, sortBy_rev_rev, sortBy_idempotent;
    reflexivity.
Qed.

(** With the flag at true, sorting stories that are already ascending on
    the field leaves them as they are. *)
Theorem sort_ascending_unchanged (d : Stories) (loading error : bool)
  (path : string) :
  ascending path d ->
  storiesReducer (mkState d loading error true) (SORT_STORIES path)
  = Returns (mkState d loading error false).
Proof.
  intros H. simpl. now rewrite sortBy_fixes_ascending.
Qed.

Lemma sort_ascending_unchanged_witness :
  ascending "points" [story1; story2]
  /\ storiesReducer (mkState [story1; story2] false false true)
                    (SORT_STORIES "points")
     = Returns (mkState [story1; story2] false false false).
Proof.
  assert (H : ascending "points" [story1; story2]).
  { repeat constructor. unfold keyLe. vm_compute. discriminate. }
  split; [exact H|].
  apply (sort_ascending_unchanged [story1; story2] false false "points" H).
Defined.



(** Dismissing a story and sorting can be done in either order: the state
    reached is the same. *)
Theorem sort_remove_commute (s : StoriesState) (a : Story) (path : string) :
  dispatchAll s [REMOVE_STORY a; SORT_STORIES path]
  = dispatchAll s [SORT_STORIES path; REMOVE_STORY a].
Proof.
  destruct s as [d l e r]. destruct r; simpl; do 2 f_equal.
  - apply sortBy_filter.
  - rewrite sortBy_filter. symmetry. apply filter_rev.
Qed.

(** ** Dismissing, again *)

(** Dismissing the same story a second time changes nothing. *)
Theorem remove_story_twice (s : StoriesState) (a : Story) :
  dispatchAll s [REMOVE_STORY a; REMOVE_STORY a]
  = dispatchAll s [REMOVE_STORY a].
Proof.
  simpl. do 2 f_equal.
  induction (data s) as [|x l IH]; simpl; [reflexivity|].
  destruct (objectID a =? objectID x)%string eqn:E; simpl;
    [exact IH|]. rewrite E. simpl. now rewrite IH.
Qed.

(** Two stories can be dismissed in either order. *)
Theorem remove_story_commute (s : StoriesState) (a b : Story) :
  dispatchAll s [REMOVE_STORY a; REMOVE_STORY b]
  = dispatchAll s [REMOVE_STORY b; REMOVE_STORY a].
Proof.
  simpl. do 2 f_equal. apply filter_comm.
Qed.

Lemma filter_other_ids (a : Story) (l : Stories) :
  existsb (fun y => (objectID y =? objectID a)%string) l = false ->
  filter (fun story => negb (objectID a =? objectID story)%string) l = l.
Proof.
  induction l as [|x l IH]; simpl; intros H.
  - reflexivity.
  - apply orb_false_elim in H. destruct H as [Hx Hl].
    rewrite String.eqb_sym, Hx. simpl. now rewrite IH.
Qed.

Lemma dismiss_row_filter (d : Stories) :
  forall (row : nat) (item : Story),
  uniqueIDs d = true -> nth_error d row = Some item ->
  filter (fun story => negb (objectID item =? objectID story)%string) d
  = dropNth row d.
Proof.
  induction d as [|x d IH]; intros row item U N.
  - destruct row; discriminate.
  - simpl in U. apply andb_prop in U. destruct U as [Ux Ud].
    apply negb_true_iff in Ux.
    destruct row as [|row]; simpl in N.
    + injection N as ->. simpl. rewrite String.eqb_refl. simpl.
      now apply filter_other_ids.
    + simpl.
      assert (E : (objectID item =? objectID x)%string = false).
      { destruct (objectID item =? objectID x)%string eqn:E; [|reflexivity].
        exfalso.
        assert (X : existsb (fun y => (objectID y =? objectID x)%string) d
                    = true).
        { apply existsb_exists. exists item.
          split; [eapply nth_error_In; exact N|exact E]. }
        congruence. }
      rewrite E. simpl. unfold dropNth in *. simpl.
      f_equal. now apply IH.
Qed.

(** When the stories have distinct identifiers, the Dismiss button of a row
    removes that row and no other: the stories before and after it stay, in
    their order. *)
Theorem dismiss_row (d : Stories) (loading error r : bool) (row : nat)
  (item : Story) :
  uniqueIDs d = true -> nth_error d row = Some item ->
  storiesReducer (mkState d loading error r) (handleRemoveStory item)
  = Returns (mkState (dropNth row d) loading error r).
Proof.
  intros U N. simpl. now rewrite (dismiss_row_filter d row item U N).
Qed.

Lemma dismiss_row_witness :
  uniqueIDs [story1; story2] = true
  /\ nth_error [story1; story2] 1 = Some story2
  /\ storiesReducer (mkState [story1; story2] false false false)
                    (handleRemoveStory story2)
     = Returns (mkState (dropNth 1 [story1; story2]) false false false).
Proof.
  split; [reflexivity|]. split; [reflexivity|].
  apply (dismiss_row [story1; story2] false false false 1%nat story2);
    reflexivity.
Defined.

(** With ties the third click does not show what the first showed: two
    stories by one author swap places. *)
Example sort_three_times_ties :
  dispatchAll (mkState [story1; mkStory "3" "" "C" "X" 0 1] false false false)
              (repeat (SORT_STORIES "author") 3)
  <> dispatchAll (mkState [story1; mkStory "3" "" "C" "X" 0 1]
                          false false false)
                 [SORT_STORIES "author"].
Proof. vm_compute. discriminate. Qed.

(** ** A whole fetch *)


Lemma storiesReducer_exclusive (s : StoriesState) (a : StoriesAction) :
  isCommand a = true ->
  isLoading s && isError s = false ->
  exists s', storiesReducer s a = Returns s'
             /\ isLoading s' && isError s' = false.
Proof.
  intros Hc Hs. destruct a; simpl in *; try discriminate;
    try (eexists; split; [reflexivity|]; simpl; auto; fail).
  destruct (reverse s); eexists; (split; [reflexivity|]); simpl; auto.
Qed.

(** No sequence of the five actions, started in a state that is not both
    loading and in error, throws or reaches a state that is both. *)
Theorem loading_error_exclusive (actions : list StoriesAction) :
  forall s : StoriesState,
  forallb isCommand actions = true ->
  isLoading s && isError s = false ->
  exists s', dispatchAll s actions = Returns s'
             /\ isLoading s' && isError s' = false.
Proof.
  induction actions as [|a rest IH]; intros s Hc Hs; simpl in *.
  - exists s. auto.
  - apply andb_prop in Hc. destruct Hc as [Hc Hcs].
    destruct (storiesReducer_exclusive s a Hc Hs) as [s1 [E1 H1]].
    rewrite E1. now apply IH.
Qed.

Lemma loading_error_exclusive_witness :
  forallb isCommand
    [STORIES_FETCH_INIT; STORIES_FETCH_FAILURE; SORT_STORIES "author";
     STORIES_FETCH_INIT] = true
  /\ isLoading initialState && isError initialState = false
  /\ exists s',
       dispatchAll initialState
         [STORIES_FETCH_INIT; STORIES_FETCH_FAILURE; SORT_STORIES "author";
          STORIES_FETCH_INIT] = Returns s'
       /\ isLoading s' && isError s' = false.
Proof.
  split; [reflexivity|]. split; [reflexivity|].
  apply (loading_error_exclusive
           [STORIES_FETCH_INIT; STORIES_FETCH_FAILURE; SORT_STORIES "author";
            STORIES_FETCH_INIT] initialState); reflexivity.
Defined.


(** ** The page as a whole *)

Lemma getItem_setItem (storage : Storage) (key value : string) :
  getItem (setItem storage key value) key = Some value.
Proof.
  unfold setItem. simpl. now rewrite String.eqb_refl.
Qed.

Lemma initial_term_nonempty (key : string) (storage : Storage) :
  useSemiPersistentState_initial key "React" storage <> "".
Proof.
  unfold useSemiPersistentState_initial.
  destruct (getItem storage key) as [v|]; [|discriminate].
  destruct (v =? "")%string eqn:E; [discriminate|].
  now apply String.eqb_neq.
Qed.

Lemma clickHeader_sort (text : string) (action : StoriesAction) :
  clickHeader text = Some action -> exists field, action = SORT_STORIES field.
Proof.
  unfold clickHeader.
  destruct (find (fun b => (textField b =? text)%string) App_buttons)
    as [b|]; [|discriminate].
  intros H. injection H as <-. now exists (filterField b).
Qed.

Lemma dropNth_In {A : Type} (i : nat) (l : list A) (x : A) :
  In x (dropNth i l) -> In x l.
Proof.
  revert i. induction l as [|y r IH]; intros i H.
  - destruct i; destruct H.
  - destruct i as [|i].
    + right. exact H.
    + destruct H as [H|H]; [now left|right]. now apply (IH i).
Qed.

#[local] Arguments API_ENDPOINT : simpl never.
#[local] Arguments String.append : simpl never.
#[local] Arguments String.eqb : simpl never.
#[local] Arguments getItem : simpl never.
#[local] Arguments setItem : simpl never.

Lemma mount_invariant (storage : Storage) :
  exists app, App.mount storage = Some app /\ App.invariant app.
Proof.
  eexists. split; [reflexivity|]. unfold App.invariant; simpl.
  pose proof (initial_term_nonempty "search" storage) as Hne.
  split; [first [apply getItem_setItem|reflexivity]|].
  split; [eexists; split; [exact Hne|reflexivity]|].
  split; [constructor; [|constructor];
          eexists; split; [exact Hne|reflexivity]|].
  split; [discriminate|reflexivity].
Qed.

Lemma step_invariant (app : App.State) (e : App.Event) :
  App.invariant app ->
  exists app', App.step app e = Some app' /\ App.invariant app'.
Proof.
  destruct app as [term u st storage pend].
  intros (Hs & Hu & Hp & Hl & Hx). simpl in *.
  destruct e as [value| |text|row|request r]; simpl.
  - unfold App.handleSearchInput. simpl.
    destruct (value =? term)%string.
    + eexists; split; [reflexivity|]. repeat split; auto.
    + eexists; split; [reflexivity|]. unfold App.invariant; simpl.
      split; [first [apply getItem_setItem|reflexivity]|]. auto.
  - unfold SearchForm_disabled.
    destruct (term =? "")%string eqn:E.
    + eexists; split; [reflexivity|]. repeat split; auto.
    + apply String.eqb_neq in E. unfold App.handleSearchSubmit. simpl.
      destruct (API_ENDPOINT ++ term =? u)%string.
      * eexists; split; [reflexivity|]. repeat split; auto.
      * eexists; split; [reflexivity|]. unfold App.invariant; simpl.
        split; [exact Hs|].
        split; [exists term; auto|].
        split; [apply Forall_app; split; [exact Hp|];
                constructor; [exists term; auto|constructor]|].
        split; [|reflexivity].
        intros _ H. now destruct pend.
  - destruct (clickHeader text) as [action|] eqn:E.
    + destruct (clickHeader_sort text action E) as [field ->].
      unfold App.dispatchStories. simpl.
      destruct (reverse st); eexists; (split; [reflexivity|]);
        unfold App.invariant; simpl; auto.
    + eexists; split; [reflexivity|]. repeat split; auto.
  - destruct (isLoading st) eqn:L.
    + eexists; split; [reflexivity|].
      unfold App.invariant; simpl. rewrite L. auto.
    + destruct (nth_error (data st) row) as [item|].
      * eexists; split; [reflexivity|].
        unfold App.invariant; simpl. rewrite L. auto.
      * eexists; split; [reflexivity|].
        unfold App.invariant; simpl. rewrite L. auto.
  - unfold App.settleFetch. simpl.
    destruct (nth_error pend request) as [sent|].
    + assert (Hd : Forall (fun u0 => exists t, t <> ""
                                      /\ u0 = API_ENDPOINT ++ t)
                          (dropNth request pend)).
      { apply Forall_forall. intros x Hin. apply dropNth_In in Hin.
        rewrite Forall_forall in Hp. now apply Hp. }
      destruct r; eexists; (split; [reflexivity|]);
        unfold App.invariant; simpl;
        (split; [exact Hs|]); (split; [exact Hu|]);
        (split; [exact Hd|]); (split; [discriminate|reflexivity]).
    + eexists; split; [reflexivity|]. repeat split; auto.
Qed.

Lemma run_invariant (events : list App.Event) :
  forall app : App.State,
  App.invariant app ->
  exists app', App.run app events = Some app' /\ App.invariant app'.
Proof.
  induction events as [|e rest IH]; intros app H; simpl.
  - now exists app.
  - destruct (step_invariant app e H) as [app1 [E1 H1]].
    rewrite E1. now apply IH.
Qed.

(** No visit makes the reducer throw, and every state of a visit satisfies
    the invariant. *)
Lemma session_invariant (storage : Storage) (events : list App.Event) :
  exists app, App.session storage events = Some app /\ App.invariant app.
Proof.
  unfold App.session.
  destruct (mount_invariant storage) as [app0 [E0 H0]].
  rewrite E0. now apply run_invariant.
Qed.

(** Opening the page, whatever the storage holds: the search term is not
    empty, so the submit button is enabled; the url is the endpoint followed
    by the term; one request, to that url, is out; the term has been written
    to storage; the page shows the loading line only. *)
Theorem mount_first_render (storage : Storage) :
  exists app, App.mount storage = Some app
              /\ App.searchTerm app <> ""
              /\ SearchForm_disabled (App.searchTerm app) = false
              /\ App.url app = API_ENDPOINT ++ App.searchTerm app
              /\ App.pending app = [App.url app]
              /\ getItem (App.localStorage app) "search"
                 = Some (App.searchTerm app)
              /\ App_body (App.stories app) = [LoadingMessage].
Proof.
  pose proof (initial_term_nonempty "search" storage) as Hne.
  eexists. split; [reflexivity|]. simpl.
  split; [exact Hne|].
  split; [now apply String.eqb_neq|].
  split; [reflexivity|]. split; [reflexivity|].
  split; [apply getItem_setItem|reflexivity].
Qed.

(** An empty term in storage counts as no term: the page opens on React,
    as it does over a storage without the key. *)
Theorem mount_empty_term (storage : Storage) :
  exists app app',
    App.mount (setItem storage "search" "") = Some app
    /\ App.mount [] = Some app'
    /\ App.searchTerm app = "React"
    /\ App.searchTerm app' = "React"
    /\ App.url app = App.url app'.
Proof.
  do 2 eexists. split; [reflexivity|]. split; [reflexivity|].
  unfold useSemiPersistentState_initial. rewrite getItem_setItem.
  repeat split; reflexivity.
Qed.

(** At every moment of a visit the storage holds the search term as it
    stands in the input, typed or not yet submitted. *)
Theorem term_is_stored (storage : Storage) (events : list App.Event) :
  exists app, App.session storage events = Some app
              /\ getItem (App.localStorage app) "search"
                 = Some (App.searchTerm app).
Proof.
  destruct (session_invariant storage events) as [app [E H]].
  exists app. split; [exact E|]. apply H.
Qed.

(** Leaving at any moment and opening the page again gives back the search
    term of that moment, unless the input had been emptied: then the page
    opens on React. *)
Theorem term_survives_reload (storage : Storage) (events : list App.Event) :
  exists app app',
    App.session storage events = Some app
    /\ App.mount (App.localStorage app) = Some app'
    /\ App.searchTerm app'
       = if (App.searchTerm app =? "")%string then "React"
         else App.searchTerm app.
Proof.
  destruct (session_invariant storage events) as [app [E H]].
  exists app. eexists. split; [exact E|]. split; [reflexivity|].
  destruct H as [Hs _]. simpl.
  unfold useSemiPersistentState_initial. now rewrite Hs.
Qed.

(** Every request of a visit, and the url the page stands on, is the
    endpoint followed by a term that is not empty. *)
Theorem requests_carry_a_term (storage : Storage) (events : list App.Event) :
  exists app, App.session storage events = Some app
              /\ Forall (fun u => exists term,
                             term <> "" /\ u = API_ENDPOINT ++ term)
                        (App.url app :: App.pending app).
Proof.
  destruct (session_invariant storage events) as [app [E H]].
  exists app. split; [exact E|].
  destruct H as (_ & Hu & Hp & _). now constructor.
Qed.

(** Whenever the page shows the loading line, a request is still out. *)
Theorem loading_has_request (storage : Storage) (events : list App.Event) :
  exists app, App.session storage events = Some app
              /\ (isLoading (App.stories app) = false
                  \/ App.pending app <> []).
Proof.
  destruct (session_invariant storage events) as [app [E H]].
  exists app. split; [exact E|].
  destruct H as (_ & _ & _ & Hl & _).
  destruct (isLoading (App.stories app)); [right; now apply Hl|now left].
Qed.

(** Submitting the form twice in a row does what submitting it once does:
    the second submit sends no request. *)
Theorem submit_twice (app : App.State) :
  App.run app [App.Submitted; App.Submitted]
  = App.run app [App.Submitted].
Proof.
  destruct app as [term u st storage pend].
  unfold App.run, App.step, SearchForm_disabled. simpl.
  destruct (term =? "")%string eqn:D.
  - simpl. rewrite D. reflexivity.
  - unfold App.handleSearchSubmit. simpl.
    destruct (API_ENDPOINT ++ term =? u)%string eqn:E.
    + simpl. rewrite D, E. reflexivity.
    + simpl. rewrite D, String.eqb_refl. reflexivity.
Qed.

(** Typing, however much, sends no request and leaves the url and the
    stories alone. *)
Theorem typing_never_fetches (values : list string) :
  forall app : App.State,
  exists app', App.run app (map App.Typed values) = Some app'
               /\ App.url app' = App.url app
               /\ App.stories app' = App.stories app
               /\ App.pending app' = App.pending app.
Proof.
  induction values as [|v rest IH]; intros app; simpl.
  - exists app. auto.
  - destruct (IH (App.handleSearchInput v app)) as [app' (E & Hu & Hs & Hp)].
    exists app'. split; [exact E|].
    rewrite Hu, Hs, Hp. unfold App.handleSearchInput.
    destruct (v =? App.searchTerm app)%string; auto.
Qed.

(** Nothing ties a response to the url it was asked for: with two requests
    out, the answer that arrives last is the one shown, also when it answers
    the older request. *)
Example stale_response_shown :
  exists app,
    App.session []
      [App.Typed "Rocq"; App.Submitted;
       App.Settled 1 (Resolved [story2]);
       App.Settled 0 (Resolved [story1])] = Some app
    /\ App.url app = API_ENDPOINT ++ "Rocq"
    /\ App.pending app = []
    /\ App_body (App.stories app) = [ListOf [story1]].
Proof.
  eexists. split; [vm_compute; reflexivity|]. repeat split; reflexivity.
Qed.
